(** * usePopcorn: watched list, aggregate, selection, persistence, detail fetch

    A shallow embedding of the logic of [App.tsx] and
    [useLocalStorageState.ts], and the properties of it that the
    specification states.

    Conventions of the embedding.
    - A JavaScript number is an extended rational: [NaN], the two
      infinities, or a finite value held exactly as a canonical rational.
      Binary64 rounding, overflow and the sign of zero are not represented;
      every statement about sums and quotients of [number] is a statement
      of exact arithmetic. Where rounding decides, the same code is taken
      once more over binary64 itself (module [B64]).
    - Reading a property of an object yields [undefined] (also when the
      property is absent), [null], or a value: the type [opt].
    - A React state updater [setX(f)] is the pure function [f] on the
      state; an effect is a function on the state of the world it touches,
      run once per change of its dependencies (the second run that
      [StrictMode] adds in a development build is not represented).
    - The text held by [localStorage] is either the text of a JSON document,
      represented by that document, or a text outside the JSON grammar. *)

From Stdlib Require Import QArith Qcanon Qround ZArith Lia Ascii String DecimalString.
From Stdlib Require Import PrimFloat Uint63.
From stdpp Require Import base numbers list strings gmap.

Local Open Scope Qc_scope.
Set Warnings "-register-all".

(** ** The JavaScript values the program computes with *)

Module JS.

(** What reading a property yields. *)
Inductive opt (A : Type) : Type :=
| undefined
| null
| val (a : A).
Arguments undefined {A}.
Arguments null {A}.
Arguments val {A} a.

#[global] Instance opt_eq_dec {A} `{EqDecision A} : EqDecision (opt A).
Proof. solve_decision. Defined.

(** [v ?? d] *)
Definition nullish {A} (v : opt A) (d : A) : A :=
  match v with
  | val a => a
  | undefined | null => d
  end.

(** [a === b] on two reads of a text property: the same text, or twice
    [undefined], or twice [null]. *)
Definition strict_eq (a b : opt string) : bool :=
  bool_decide (a = b).

(** [a !== b] *)
Definition strict_ne (a b : opt string) : bool :=
  negb (strict_eq a b).

Inductive number : Type :=
| NaN
| Infinity (negative : bool)
| Fin (q : Qc).

#[global] Instance number_eq_dec : EqDecision number.
Proof. solve_decision. Defined.

Definition of_nat (n : nat) : number := Fin (Qc_of_Z (Z.of_nat n)).

(** [x + y] *)
Definition add (x y : number) : number :=
  match x, y with
  | NaN, _ | _, NaN => NaN
  | Infinity s, Infinity t => if Bool.eqb s t then Infinity s else NaN
  | Infinity s, Fin _ => Infinity s
  | Fin _, Infinity t => Infinity t
  | Fin a, Fin b => Fin (a + b)
  end.

(** [x / y]; a zero divisor is taken as positive zero. *)
Definition div (x y : number) : number :=
  match x, y with
  | NaN, _ | _, NaN => NaN
  | Infinity _, Infinity _ => NaN
  | Infinity s, Fin b => Infinity (xorb s (bool_decide (b < 0)))
  | Fin _, Infinity _ => Fin 0
  | Fin a, Fin b =>
      if decide (b = 0)
      then (if decide (a = 0) then NaN else Infinity (bool_decide (a < 0)))
      else Fin (a / b)
  end.

(** [x > y] *)
Definition gt (x y : number) : bool :=
  match x, y with
  | NaN, _ | _, NaN => false
  | Infinity s, Infinity t => negb s && t
  | Infinity s, Fin _ => negb s
  | Fin _, Infinity t => t
  | Fin a, Fin b => bool_decide (b < a)
  end.

(** Truthiness of a number: [if (x)]. *)
Definition truthy (x : number) : bool :=
  match x with
  | NaN => false
  | Infinity _ => true
  | Fin q => negb (bool_decide (q = 0))
  end.

(** [arr.reduce(f, init)]: the callback receives the accumulator, the
    current element, its index and the array itself, left to right; it
    is not called at all on the empty array. *)
Fixpoint reduce_from {A B} (f : B → A → nat → list A → B)
    (arr : list A) (i : nat) (acc : B) (rest : list A) : B :=
  match rest with
  | [] => acc
  | cur :: rest' => reduce_from f arr (S i) (f acc cur i arr) rest'
  end.

Definition reduce {A B} (f : B → A → nat → list A → B) (init : B)
    (arr : list A) : B :=
  reduce_from f arr 0 init arr.

(** [arr.find(p)] *)
Fixpoint find {A} (p : A → bool) (arr : list A) : opt A :=
  match arr with
  | [] => undefined
  | x :: arr' => if p x then val x else find p arr'
  end.

(** Decimal digits of a non-negative integer. *)
Definition digits (n : Z) : string :=
  NilZero.string_of_uint (N.to_uint (Z.to_N n)).

Fixpoint zeros (k : nat) : string :=
  match k with
  | O => EmptyString
  | S k' => String "0"%char (zeros k')
  end.

(** [x.toFixed(f)]. For a finite [x] below 10^21 in magnitude: the
    integer [n] nearest to [|x| * 10^f] (the larger one on a tie), written
    with at least [f + 1] digits and a point before the last [f], after a
    minus sign when [x < 0]. From 10^21 on JavaScript switches to the
    exponential form of [String(x)], which is not represented: [None]. *)
Definition toFixed (f : nat) (x : number) : option string :=
  match x with
  | NaN => Some "NaN"%string
  | Infinity false => Some "Infinity"%string
  | Infinity true => Some "-Infinity"%string
  | Fin q =>
      let neg := bool_decide (q < 0) in
      let a := if neg then - q else q in
      if decide (a < Qc_of_Z (10 ^ 21)%Z) then
        let n := Qfloor (this (a * Qc_of_Z (10 ^ Z.of_nat f)%Z + Q2Qc (1 # 2))) in
        let m := digits n in
        let m := if decide (f = O) then m
                 else
                   let k := String.length m in
                   let m := if decide (k ≤ f)%nat
                            then (zeros (f + 1 - k) +:+ m)%string else m in
                   let k := String.length m in
                   (substring 0 (k - f) m +:+ "." +:+ substring (k - f) f m)%string in
        Some (if neg then ("-" +:+ m)%string else m)
      else None
  end.

End JS.

Export JS.

Notation "v ?? d" := (nullish v d) (at level 45, left associativity).

(** ** The data model of [App.tsx] *)

(** [type WatchedMovie = Movie & { runtime?, imdbRating?, userRating?,
    countRatingDecisions? }]. [null] is not in the declared types; it is
    what [JSON.parse] hands back for a number that [JSON.stringify] could
    not write. *)
Module WatchedMovie.
Record t : Type := mk {
  imdbID : opt string;
  Title : opt string;
  Year : opt string;
  Poster : opt string;
  runtime : opt number;
  imdbRating : opt number;
  userRating : opt number;
  countRatingDecisions : opt number;
}.

#[global] Instance eq_dec : EqDecision t.
Proof. solve_decision. Defined.
End WatchedMovie.

Abbreviation WatchedMovie := WatchedMovie.t.

(** ** The aggregate: [average] and [WatchedSummary] *)

(** [const average = (arr) =>
      arr.reduce((acc, cur, i, arr) => acc + cur / arr.length, 0)] *)
Definition average (arr : list number) : number :=
  reduce (fun acc cur (i : nat) arr => add acc (div cur (of_nat (length arr))))
         (Fin 0) arr.

Definition avgImdbRating (watched : list WatchedMovie) : number :=
  average (map (fun movie => WatchedMovie.imdbRating movie ?? Fin 0) watched).

Definition avgUserRating (watched : list WatchedMovie) : number :=
  average (map (fun movie => WatchedMovie.userRating movie ?? Fin 0) watched).

Definition avgRuntime (watched : list WatchedMovie) : number :=
  average (map (fun movie => WatchedMovie.runtime movie ?? Fin 0) watched).

(** What the summary panel shows: the four [<span>] contents, without the
    fixed words after them. *)
Record SummaryView : Type := {
  movies_shown : nat;
  imdb_shown : option string;
  user_shown : option string;
  runtime_shown : option string;
}.

Definition WatchedSummary (watched : list WatchedMovie) : SummaryView :=
  {| movies_shown := length watched;
     imdb_shown := toFixed 2 (avgImdbRating watched);
     user_shown := toFixed 2 (avgUserRating watched);
     runtime_shown := toFixed 2 (avgRuntime watched) |}.

(** [sum(x_i)]: the plain left-to-right sum, from 0. *)
Definition sum (arr : list number) : number :=
  foldl add (Fin 0) arr.

(** ** Selection and the watched list: the handlers of [App] *)

(** [setSelectedId((selectedId) => (selectedId === id ? "" : id))] *)
Definition handleSelectMovie (id : string) (selectedId : string) : string :=
  if decide (selectedId = id) then ""%string else id.

(** [setSelectedId("")] *)
Definition handleCloseMovie (selectedId : string) : string := ""%string.

(** [setWatched((watched) => [...watched, movie])] *)
Definition handleAddWatched (movie : WatchedMovie)
    (watched : list WatchedMovie) : list WatchedMovie :=
  watched ++ [movie].

(** [setWatched((watched) => watched.filter((w) => w.imdbID !== id))].
    [id] is declared a string; the caller passes [movie.imdbID!], an
    assertion with no check behind it, so all three kinds of read are
    admitted here. *)
Definition handleDeleteWatched (id : opt string)
    (watched : list WatchedMovie) : list WatchedMovie :=
  List.filter (fun w => strict_ne (WatchedMovie.imdbID w) id) watched.

(** The selection as the specification names it. [App] branches on the
    truthiness of [selectedId]: the empty string is "no selection". *)
Inductive SelectionState : Type :=
| NoSelection
| Selected (id : string).

Definition selection (selectedId : string) : SelectionState :=
  if decide (selectedId = ""%string) then NoSelection else Selected selectedId.

(** ** Persistence: [useLocalStorageState] *)

(** A JSON document. *)
Inductive json : Type :=
| JNull
| JBool (b : bool)
| JNumber (q : Qc)
| JString (s : string)
| JArray (items : list json)
| JObject (members : list (string * json)).

(** A stored text: the text of a JSON document, or a text that
    [JSON.parse] rejects. *)
Inductive text : Type :=
| Document (j : json)
| Garbage (s : string).

Inductive SyntaxError : Type := Unexpected_token.

(** [localStorage.getItem(key)]: [None] stands for [null]. *)
Definition getItem (localStorage : gmap string text) (key : string)
    : option text :=
  localStorage !! key.

(** [localStorage.setItem(key, s)], after [JSON.stringify]: where that
    returned [undefined], the text stored is the word "undefined". *)
Definition setItem (key : string) (s : option json)
    (localStorage : gmap string text) : gmap string text :=
  <[key := match s with
           | Some j => Document j
           | None => Garbage "undefined"
           end]> localStorage.

(** [JSON.parse(x)]: [null] is first turned into the text "null". The value
    built from a document is represented by the document. *)
Definition JSON_parse (x : option text) : SyntaxError + json :=
  match x with
  | None => inr JNull
  | Some (Document j) => inr j
  | Some (Garbage _) => inl Unexpected_token
  end.

(** The hook is generic in [T]; what it needs of [T] is how
    [JSON.stringify] writes a [T] ([None]: it returns [undefined]) and
    which parsed values are a [T]. *)
Class Stored (T : Type) : Type := {
  JSON_stringify : T → option json;
  as_T : json → option T;
}.

(** What the state initializer
    [() => JSON.parse(localStorage.getItem(key)!) ?? initialState]
    comes to. *)
Inductive Loaded (T : Type) : Type :=
| Threw (e : SyntaxError)
| Got (value : T)
| Untyped (j : json).
Arguments Threw {T} e.
Arguments Got {T} value.
Arguments Untyped {T} j.

Definition load {T} `{Stored T} (initialState : T) (key : string)
    (localStorage : gmap string text) : Loaded T :=
  match JSON_parse (getItem localStorage key) with
  | inl e => Threw e
  | inr JNull => Got initialState
  | inr j => match as_T j with
             | Some v => Got v
             | None => Untyped j
             end
  end.

(** The effect [localStorage.setItem(key, JSON.stringify(value))]. *)
Definition save {T} `{Stored T} (key : string) (value : T)
    (localStorage : gmap string text) : gmap string text :=
  setItem key (JSON_stringify value) localStorage.

(** *** How a watched list is written and read *)

(** A property is left out when its value is [undefined]. *)
Definition member {A} (write : A → json) (k : string) (v : opt A)
    : list (string * json) :=
  match v with
  | undefined => []
  | null => [(k, JNull)]
  | val a => [(k, write a)]
  end.

(** A number that is not finite is written [null]. *)
Definition write_number (x : number) : json :=
  match x with
  | Fin q => JNumber q
  | NaN | Infinity _ => JNull
  end.

Definition members_of (w : WatchedMovie) : list (string * json) :=
  member JString "imdbID" (WatchedMovie.imdbID w)
  ++ member JString "Title" (WatchedMovie.Title w)
  ++ member JString "Year" (WatchedMovie.Year w)
  ++ member JString "Poster" (WatchedMovie.Poster w)
  ++ member write_number "runtime" (WatchedMovie.runtime w)
  ++ member write_number "imdbRating" (WatchedMovie.imdbRating w)
  ++ member write_number "userRating" (WatchedMovie.userRating w)
  ++ member write_number "countRatingDecisions"
       (WatchedMovie.countRatingDecisions w).

Definition write_movie (w : WatchedMovie) : json := JObject (members_of w).

(** [o[k]] on a parsed object: the last member named [k] is the one that
    stays. *)
Fixpoint read (k : string) (members : list (string * json)) : option json :=
  match members with
  | [] => None
  | (k', j) :: rest =>
      match read k rest with
      | Some j' => Some j'
      | None => if decide (k = k') then Some j else None
      end
  end.

Definition read_string (k : string) (members : list (string * json))
    : option (opt string) :=
  match read k members with
  | None => Some undefined
  | Some JNull => Some null
  | Some (JString s) => Some (val s)
  | Some _ => None
  end.

Definition read_number (k : string) (members : list (string * json))
    : option (opt number) :=
  match read k members with
  | None => Some undefined
  | Some JNull => Some null
  | Some (JNumber q) => Some (val (Fin q))
  | Some _ => None
  end.

(** A parsed value seen as a [WatchedMovie]: an object whose eight
    properties, where present, have the declared types. Its other
    properties are never read by the program. *)
Definition as_movie (j : json) : option WatchedMovie :=
  match j with
  | JObject ms =>
      id ← read_string "imdbID" ms;
      title ← read_string "Title" ms;
      year ← read_string "Year" ms;
      poster ← read_string "Poster" ms;
      runtime ← read_number "runtime" ms;
      imdbRating ← read_number "imdbRating" ms;
      userRating ← read_number "userRating" ms;
      count ← read_number "countRatingDecisions" ms;
      Some (WatchedMovie.mk id title year poster runtime imdbRating
              userRating count)
  | _ => None
  end.

#[global] Instance watched_stored : Stored (list WatchedMovie) := {
  JSON_stringify watched := Some (JArray (map write_movie watched));
  as_T j := match j with
            | JArray items => mapM as_movie items
            | _ => None
            end;
}.

(** What a round trip makes of a numeric property. *)
Definition reread_number (v : opt number) : opt number :=
  match v with
  | val (Fin q) => val (Fin q)
  | val NaN | val (Infinity _) => null
  | undefined => undefined
  | null => null
  end.

Definition reread (w : WatchedMovie) : WatchedMovie :=
  WatchedMovie.mk
    (WatchedMovie.imdbID w) (WatchedMovie.Title w) (WatchedMovie.Year w)
    (WatchedMovie.Poster w)
    (reread_number (WatchedMovie.runtime w))
    (reread_number (WatchedMovie.imdbRating w))
    (reread_number (WatchedMovie.userRating w))
    (reread_number (WatchedMovie.countRatingDecisions w)).

(** A numeric property that JSON can hold: missing, [null] or finite. *)
Definition writable (v : opt number) : Prop :=
  match v with
  | val NaN | val (Infinity _) => False
  | _ => True
  end.

Definition all_writable (w : WatchedMovie) : Prop :=
  writable (WatchedMovie.runtime w) ∧ writable (WatchedMovie.imdbRating w) ∧
  writable (WatchedMovie.userRating w) ∧
  writable (WatchedMovie.countRatingDecisions w).

(** ** The detail view: [MovieDetails] *)

(** [type MovieDetails = Movie & { Runtime?, imdbRating?, Plot?, ... }],
    all text. *)
Module MovieDetails.
Record t : Type := mk {
  imdbID : opt string;
  Title : opt string;
  Year : opt string;
  Poster : opt string;
  Runtime : opt string;
  imdbRating : opt string;
  Plot : opt string;
  Released : opt string;
  Actors : opt string;
  Director : opt string;
  Genre : opt string;
}.

(** [{}] *)
Definition empty : t :=
  mk undefined undefined undefined undefined undefined undefined
     undefined undefined undefined undefined undefined.

#[global] Instance eq_dec : EqDecision t.
Proof. solve_decision. Defined.
End MovieDetails.

Abbreviation MovieDetails := MovieDetails.t.

(** [s.split(" ")[0]]: what stands before the first space. *)
Fixpoint split_head (s : string) : string :=
  match s with
  | EmptyString => EmptyString
  | String c s' =>
      if Ascii.eqb c " "%char then EmptyString else String c (split_head s')
  end.

(** [v?.split(" ")[0]]: the whole chain is skipped on a nullish [v]. *)
Definition split_head_opt (v : opt string) : opt string :=
  match v with
  | val s => val (split_head s)
  | undefined | null => undefined
  end.

(** How a request ends: [fetch] rejects; or it resolves with a response
    (of any status) whose body [res.json()] rejects; or [res.json()]
    resolves with the parsed record, taken at its declared type. The
    status is carried along and never looked at: the code does not read
    [res.ok]. *)
Inductive FetchOutcome : Type :=
| NetworkError
| BadBody (status : nat)
| Body (status : nat) (data : MovieDetails).

(** A rejection that nothing catches. *)
Inductive Rejection : Type :=
| TypeError_failed_to_fetch
| SyntaxError_in_body.

Module Details.

(** The state of one mounted [MovieDetails]: its three [useState] cells
    and [countRef.current]. [instance] tells one mount from the next. *)
Record state : Type := mk {
  instance : nat;
  movie : MovieDetails;
  isLoading : bool;
  userRating : number;
  countRef : number;
}.

(** [useState<MovieDetails>({})], [useState(false)], [useState(0)],
    [useRef(0)] *)
Definition initial (i : nat) : state :=
  mk i MovieDetails.empty false (Fin 0) (Fin 0).

Definition setMovie (data : MovieDetails) (d : state) : state :=
  mk (instance d) data (isLoading d) (userRating d) (countRef d).

Definition setIsLoading (b : bool) (d : state) : state :=
  mk (instance d) (movie d) b (userRating d) (countRef d).

(** [setUserRating(r)], followed by the effect on [userRating]:
    [if (userRating) countRef.current++]. The effect runs only when the
    value has changed. *)
Definition setUserRating (r : number) (d : state) : state :=
  mk (instance d) (movie d) (isLoading d) r
     (if decide (r = userRating d) then countRef d
      else if truthy r then add (countRef d) (Fin 1) else countRef d).

(** [const watchedMovie = watched.find((w) => w.imdbID === selectedId)] *)
Definition watchedMovie (selectedId : string)
    (watched : list WatchedMovie) : opt WatchedMovie :=
  find (fun w => strict_eq (WatchedMovie.imdbID w) (val selectedId)) watched.

(** The rating stars are on the page: the view is not loading and
    [watchedMovie] is falsy. *)
Definition rating_shown (selectedId : string)
    (watched : list WatchedMovie) (d : state) : bool :=
  negb (isLoading d)
  && match watchedMovie selectedId watched with
     | val _ => false
     | undefined | null => true
     end.

(** The "Add to list" button is on the page: the stars are, and
    [userRating > 0]. *)
Definition add_shown (selectedId : string) (watched : list WatchedMovie)
    (d : state) : bool :=
  rating_shown selectedId watched d && gt (userRating d) (Fin 0).

(** The rest of [getMovieDetails] once the request has ended: both
    [await]s are bare, so either rejection leaves the function; otherwise
    [setMovie(data); setIsLoading(false)]. *)
Definition getMovieDetails_resume (o : FetchOutcome)
    : Rejection + (state → state) :=
  match o with
  | NetworkError => inl TypeError_failed_to_fetch
  | BadBody _ => inl SyntaxError_in_body
  | Body _ data => inr (fun d => setIsLoading false (setMovie data d))
  end.

(** What the view puts on the page. *)
Inductive View : Type :=
| Loader
| Panel (shown : MovieDetails).

Definition render (d : state) : View :=
  if isLoading d then Loader else Panel (movie d).

End Details.

Section App.

(** [Number(s)] on a text is the platform's; the program is taken with
    any such conversion. *)
Context (StringToNumber : string → number).

(** [Number(v)] *)
Definition Number (v : opt string) : number :=
  match v with
  | undefined => NaN
  | null => Fin 0
  | val s => StringToNumber s
  end.

(** The object literal in [handleAdd]. *)
Definition newWatchedMovie (selectedId : string) (d : Details.state)
    : WatchedMovie :=
  let m := Details.movie d in
  {| WatchedMovie.imdbID := val selectedId;
     WatchedMovie.Title := MovieDetails.Title m;
     WatchedMovie.Year := MovieDetails.Year m;
     WatchedMovie.Poster := MovieDetails.Poster m;
     WatchedMovie.runtime :=
       val (Number (split_head_opt (MovieDetails.Runtime m)));
     WatchedMovie.imdbRating := val (Number (MovieDetails.imdbRating m));
     WatchedMovie.userRating := val (Details.userRating d);
     WatchedMovie.countRatingDecisions := val (Details.countRef d) |}.

(** The application and what surrounds it: the state of [App] (the
    search box apart), the mounted detail view if any, the store, the
    requests on their way (oldest first, each with the view instance that
    issued it and the identifier it asked for) and the rejections nothing
    caught. *)
Record World : Type := mkWorld {
  watched : list WatchedMovie;
  selectedId : string;
  details : option Details.state;
  localStorage : gmap string text;
  inflight : list (nat * string);
  mounts : nat;
  unhandled : list Rejection;
}.

(** What the user and the network can do. *)
Inductive Event : Type :=
| ClickMovie (id : string)
| CloseMovie
| Settle (k : nat) (o : FetchOutcome)
| SetRating (r : number)
| ClickAdd
| ClickDelete (id : opt string).

(** [setWatched(f)] and the effect of [useLocalStorageState] after it. *)
Definition setWatched (f : list WatchedMovie → list WatchedMovie)
    (w : World) : World :=
  let l := f (watched w) in
  mkWorld l (selectedId w) (details w)
          (save "watched" l (localStorage w))
          (inflight w) (mounts w) (unhandled w).

(** The effect on [selectedId] in the view [d]:
    [setIsLoading(true); getMovieDetails()], up to the first [await]: the
    request for the selected identifier is on its way. *)
Definition request (d : Details.state) (w : World) : World :=
  mkWorld (watched w) (selectedId w) (Some (Details.setIsLoading true d))
          (localStorage w)
          (inflight w ++ [(Details.instance d, selectedId w)])
          (mounts w) (unhandled w).

(** [setSelectedId(id)] and the render after it: the view is unmounted
    when [id] is empty, mounted afresh when there was none, and kept, with
    its state, when only its [selectedId] changes; the effect runs when
    [selectedId] has changed. *)
Definition setSelectedId (id : string) (w : World) : World :=
  if decide (id = ""%string) then
    mkWorld (watched w) id None (localStorage w) (inflight w) (mounts w)
            (unhandled w)
  else
    match details w with
    | None =>
        request (Details.initial (mounts w))
          (mkWorld (watched w) id None (localStorage w) (inflight w)
                   (S (mounts w)) (unhandled w))
    | Some d =>
        if decide (id = selectedId w) then w
        else request d
               (mkWorld (watched w) id (details w) (localStorage w)
                        (inflight w) (mounts w) (unhandled w))
    end.

(** A request ends and the rest of [getMovieDetails] runs. Its state
    updates are those of the view that issued the request: they do
    nothing once that view is unmounted. *)
Definition settle (k : nat) (o : FetchOutcome) (w : World) : World :=
  match inflight w !! k with
  | None => w
  | Some (i, _) =>
      let rest := delete k (inflight w) in
      match Details.getMovieDetails_resume o with
      | inl r =>
          mkWorld (watched w) (selectedId w) (details w) (localStorage w)
                  rest (mounts w) (unhandled w ++ [r])
      | inr update =>
          mkWorld (watched w) (selectedId w)
                  (match details w with
                   | Some d =>
                       if decide (Details.instance d = i)
                       then Some (update d) else Some d
                   | None => None
                   end)
                  (localStorage w) rest (mounts w) (unhandled w)
      end
  end.

(** [handleAdd]: [onAddWatched(newWatchedMovie); onCloseMovie()]. *)
Definition handleAdd (d : Details.state) (w : World) : World :=
  setSelectedId (handleCloseMovie (selectedId w))
    (setWatched (handleAddWatched (newWatchedMovie (selectedId w) d)) w).

(** One event. A click on a movie of the result list, the back button or
    the Escape key, the end of a request, a click on the stars, on "Add to
    list", and on the X of a watched entry (on the page only while nothing
    is selected). An event whose control is not on the page changes
    nothing. The collapse button of [Box], which takes the detail view off
    the page and puts a fresh one back, is not among the events. *)
Definition step (w : World) (e : Event) : World :=
  match e with
  | ClickMovie id => setSelectedId (handleSelectMovie id (selectedId w)) w
  | CloseMovie => setSelectedId (handleCloseMovie (selectedId w)) w
  | Settle k o => settle k o w
  | SetRating r =>
      match details w with
      | Some d =>
          if Details.rating_shown (selectedId w) (watched w) d
          then mkWorld (watched w) (selectedId w)
                       (Some (Details.setUserRating r d)) (localStorage w)
                       (inflight w) (mounts w) (unhandled w)
          else w
      | None => w
      end
  | ClickAdd =>
      match details w with
      | Some d =>
          if Details.add_shown (selectedId w) (watched w) d
          then handleAdd d w else w
      | None => w
      end
  | ClickDelete id =>
      if decide (selectedId w = ""%string)
      then setWatched (handleDeleteWatched id) w else w
  end.

(** Events in the order they happen. *)
Definition run (w : World) (es : list Event) : World := foldl step w es.

(** [App] mounts on a store: the watched list is loaded, then saved
    back by the first run of the effect; nothing is selected. A throw in
    the initializer leaves no application. *)
Definition mount (store : gmap string text) : Loaded World :=
  match load ([] : list WatchedMovie) "watched" store with
  | Threw e => Threw e
  | Untyped j => Untyped j
  | Got l =>
      Got (mkWorld l ""%string None (save "watched" l store) [] O [])
  end.

End App.

(** ** Sample data *)

(** The scenario of the specification: user rating 8, runtime 120,
    critic rating 7.5. *)
Definition one_movie : WatchedMovie :=
  WatchedMovie.mk (val "tt0133093"%string) (val "The Matrix"%string)
    (val "1999"%string) undefined
    (val (of_nat 120)) (val (Fin (Q2Qc (15 # 2)))) (val (of_nat 8))
    (val (of_nat 1)).

Definition other_movie : WatchedMovie :=
  WatchedMovie.mk (val "tt0234215"%string) (val "The Matrix Reloaded"%string)
    (val "2003"%string) undefined
    (val (of_nat 138)) (val (Fin (Q2Qc (72 # 10)))) (val (of_nat 6))
    (val (of_nat 2)).

(** An entry made from a record whose runtime reads "N/A". *)
Definition no_runtime_movie : WatchedMovie :=
  WatchedMovie.mk (val "tt0000001"%string) (val "Carmencita"%string)
    (val "1894"%string) undefined
    (val NaN) (val (Fin (Q2Qc (57 # 10)))) (val (of_nat 5))
    (val (of_nat 1)).

Definition details_A : MovieDetails :=
  MovieDetails.mk (val "tt0133093"%string) (val "The Matrix"%string)
    (val "1999"%string) undefined (val "136 min"%string) (val "8.7"%string)
    undefined undefined undefined undefined undefined.

Definition details_B : MovieDetails :=
  MovieDetails.mk (val "tt0234215"%string) (val "The Matrix Reloaded"%string)
    (val "2003"%string) undefined (val "138 min"%string) (val "7.2"%string)
    undefined undefined undefined undefined undefined.

(** The application just started on an empty store. *)
Definition started : World :=
  mkWorld [] ""%string None (save "watched" ([] : list WatchedMovie) ∅)
          [] O [].



(** A conversion that knows no number. *)
Definition no_number (s : string) : number := NaN.

(** One movie rated and added, then looked at and "added" again: the
    second click finds no button. *)
Definition rate_twice : list Event :=
  [ClickMovie "tt0133093"; Settle 0 (Body 200 details_A);
   SetRating (of_nat 8); ClickAdd;
   ClickMovie "tt0133093"; Settle 0 (Body 200 details_A);
   SetRating (of_nat 9); ClickAdd].

(** ** The aggregate in the arithmetic of the program *)

(** The body of [average] over any arithmetic: a zero, a sum, a quotient
    and the number that a length is. *)
Definition average_with {N : Type} (zero : N) (plus quot : N → N → N)
    (of_length : nat → N) (arr : list N) : N :=
  reduce (fun acc cur (i : nat) arr => plus acc (quot cur (of_length (length arr))))
         zero arr.



Module B64.

(** The binary64 number that an array length is. *)
Definition of_nat (n : nat) : float :=
  PrimFloat.of_uint63 (Uint63.of_Z (Z.of_nat n)).

Definition of_Z (z : Z) : float :=
  match z with
  | Z0 => PrimFloat.zero
  | Zpos _ => PrimFloat.of_uint63 (Uint63.of_Z z)
  | Zneg n => PrimFloat.opp (PrimFloat.of_uint63 (Uint63.of_Z (Zpos n)))
  end.

(** The binary64 value that a [number] stands for: with numerator and
    denominator below 2^53, the one nearest to the rational. *)
Definition of_number (x : number) : float :=
  match x with
  | NaN => PrimFloat.nan
  | Infinity false => PrimFloat.infinity
  | Infinity true => PrimFloat.neg_infinity
  | Fin q =>
      PrimFloat.div (of_Z (Qnum (this q))) (of_Z (Zpos (Qden (this q))))
  end.

(** [average], with the sum and the quotient of binary64. *)
Definition average (arr : list float) : float :=
  average_with PrimFloat.zero PrimFloat.add PrimFloat.div of_nat arr.

(** [sum(x_i)] in binary64, left to right from 0. *)
Definition sum (arr : list float) : float :=
  foldl PrimFloat.add PrimFloat.zero arr.

Definition userRatings (watched : list WatchedMovie) : list float :=
  map (fun movie => of_number (WatchedMovie.userRating movie ?? Fin 0))
      watched.

Definition avgUserRating (watched : list WatchedMovie) : float :=
  average (userRatings watched).

End B64.

(** ** More of [App.tsx]: the result list, the search box, the document
    title *)

(** [v || ""] on a text read. *)
Definition or_empty (v : opt string) : string :=
  match v with
  | val s => s
  | undefined | null => ""%string
  end.

(** [<li onClick={() => onSelectMovie(movie.imdbID || "")}>] in [Movie],
    with [onSelectMovie] the [handleSelectMovie] of [App]. *)
Definition Movie_onClick (imdbID : opt string) (selectedId : string)
    : string :=
  handleSelectMovie (or_empty imdbID) selectedId.

(** The search box: the text of [query], and whether the input is the
    active element of the document. *)
Record SearchBox : Type := {
  query : string;
  focused : bool;
}.

(** The callback that [Search] hands to [useKey("Enter", ...)]:
    [if (document.activeElement === inputEl.current) return;
     inputEl.current.focus(); setQuery("")]. *)
Definition Search_onEnter (s : SearchBox) : SearchBox :=
  if focused s then s else {| query := ""%string; focused := true |}.

(** [onChange={(e) => setQuery(e.target.value)}]: typing happens in the
    input. *)
Definition Search_onChange (value : string) (s : SearchBox) : SearchBox :=
  {| query := value; focused := focused s |}.

(** The document title, and whether the last run of the title effect left
    a cleanup behind. *)
Record Page : Type := {
  documentTitle : string;
  title_cleanup : bool;
}.

(** The body of the effect on [title]:
    [if (!title) return; document.title = `Movie | ${title}`;
     return () => { ... }]. *)
Definition title_effect (title : opt string) (p : Page) : Page :=
  match title with
  | val s =>
      if decide (s = ""%string)
      then {| documentTitle := documentTitle p; title_cleanup := false |}
      else {| documentTitle := ("Movie | " +:+ s)%string;
              title_cleanup := true |}
  | undefined | null =>
      {| documentTitle := documentTitle p; title_cleanup := false |}
  end.

(** The cleanup, where one was left: [document.title = "usePopcorn"]. *)
Definition title_effect_cleanup (p : Page) : Page :=
  if title_cleanup p
  then {| documentTitle := "usePopcorn"%string; title_cleanup := false |}
  else p.

(** The [title] of a view: [movie.Title]. *)
Definition title_of (d : Details.state) : opt string :=
  MovieDetails.Title (Details.movie d).

(** What a render does to the page, from the detail view before it and
    the one after it: on a mount the effect runs; on an unmount the
    cleanup runs; in between the cleanup and then the effect run when
    [title] has changed. *)
Definition title_step (before after : option Details.state) (p : Page)
    : Page :=
  match before, after with
  | None, None => p
  | None, Some d' => title_effect (title_of d') p
  | Some _, None => title_effect_cleanup p
  | Some d, Some d' =>
      if decide (title_of d = title_of d') then p
      else title_effect (title_of d') (title_effect_cleanup p)
  end.

(** The title on show: that of the record in the mounted view, when it
    is a text that is not empty. *)
Definition titled (view : option Details.state) : option string :=
  match view with
  | Some d =>
      match title_of d with
      | val s => if decide (s = ""%string) then None else Some s
      | undefined | null => None
      end
  | None => None
  end.

(** The page as the title effect keeps it, for a document that started
    with the title [start]: while a title is on show the document carries
    it and a cleanup is pending; otherwise none is pending and the document
    has its first title or "usePopcorn". *)
Definition page_ok (start : string) (view : option Details.state)
    (p : Page) : Prop :=
  match titled view with
  | Some s =>
      p = {| documentTitle := ("Movie | " +:+ s)%string;
             title_cleanup := true |}
  | None =>
      title_cleanup p = false
      ∧ (documentTitle p = start ∨ documentTitle p = "usePopcorn"%string)
  end.

Section Pages.

Context (StringToNumber : string → number).

(** One event, with the page. *)
Definition step_page (wp : World * Page) (e : Event) : World * Page :=
  let w' := step StringToNumber wp.1 e in
  (w', title_step (details wp.1) (details w') wp.2).

Definition run_page (wp : World * Page) (es : list Event) : World * Page :=
  foldl step_page wp es.

End Pages.

(** ** What holds of every world the application gets into *)

(** The store holds the watched list as it was last written. *)
Definition in_sync (w : World) : Prop :=
  localStorage w !! "watched"%string
  = Some (Document (JArray (map write_movie (watched w)))).

(** A view is mounted exactly when something is selected; view instances
    and the requests on their way are older than the next mount. *)
Definition consistent (w : World) : Prop :=
  match details w with
  | None => selectedId w = ""%string
  | Some d => selectedId w ≠ ""%string ∧ (Details.instance d < mounts w)%nat
  end
  ∧ Forall (fun r => (r.1 < mounts w)%nat) (inflight w).

(** A mounted view has a selected identifier; view instances and the
    requests on their way are older than the next mount. *)
Definition view_has_selection (w : World) : Prop :=
  (∀ d, details w = Some d →
     selectedId w ≠ ""%string ∧ (Details.instance d < mounts w)%nat)
  ∧ Forall (fun r => (r.1 < mounts w)%nat) (inflight w).

(** The counter of a view: never below 0, and at least 1 once a rating
    that counts is chosen. *)
Definition counted (d : Details.state) : Prop :=
  ∃ q, Details.countRef d = Fin q ∧ 0 ≤ q
       ∧ (truthy (Details.userRating d) = true → 1 ≤ q).

(** An entry as the detail view makes them: a text that is not empty for
    identifier, a rating above 0, one rating decision at least. *)
Definition entry_ok (e : WatchedMovie) : Prop :=
  (∃ s, WatchedMovie.imdbID e = val s ∧ s ≠ ""%string)
  ∧ (∃ r, WatchedMovie.userRating e = val r ∧ gt r (Fin 0) = true)
  ∧ (∃ q, WatchedMovie.countRatingDecisions e = val (Fin q) ∧ 1 ≤ q).

Definition well_formed (w : World) : Prop :=
  match details w with
  | None => True
  | Some d => selectedId w ≠ ""%string ∧ counted d
  end
  ∧ Forall entry_ok (watched w).

(** A text without a space. *)
Fixpoint spaceless (s : string) : Prop :=
  match s with
  | EmptyString => True
  | String c s' => c ≠ " "%char ∧ spaceless s'
  end.

(** * Properties *)

(** ** The aggregate *)

Section Mean.

Variable n : nat.
Hypothesis n_pos : (0 < n)%nat.

Let N : number := of_nat n.







End Mean.






(** The two models run the same fold. *)
Example average_is_average_with (arr : list number) :
  average arr = average_with (Fin 0) add div of_nat arr.
Proof. reflexivity. Qed.


(** C9. The count that the summary shows is the length of the watched
    list. *)
Theorem summary_count_is_length (L : list WatchedMovie) :
  movies_shown (WatchedSummary L) = length L.
Proof. reflexivity. Qed.

(** C10. On the empty watched list the summary shows 0 movies, each
    average is exactly 0 and is shown as 0.00; [reduce] hands back its
    initial value without a call of its callback, so no division takes
    place. *)
Theorem summary_of_empty_list :
  WatchedSummary []
  = {| movies_shown := 0;
       imdb_shown := Some "0.00"%string;
       user_shown := Some "0.00"%string;
       runtime_shown := Some "0.00"%string |}
  ∧ avgImdbRating [] = Fin 0 ∧ avgUserRating [] = Fin 0
  ∧ avgRuntime [] = Fin 0
  ∧ ∀ f : number → number → nat → list number → number,
      reduce f (Fin 0) [] = Fin 0.
Proof. repeat split; vm_compute; reflexivity. Qed.

(** The scenario of the specification: one entry with user rating 8,
    runtime 120 and critic rating 7.5. *)
Example summary_of_one_movie :
  WatchedSummary [one_movie]
  = {| movies_shown := 1;
       imdb_shown := Some "7.50"%string;
       user_shown := Some "8.00"%string;
       runtime_shown := Some "120.00"%string |}.
Proof. vm_compute. reflexivity. Qed.

(** ** Selection *)

(** C7. For an identifier [id] (a text that is not empty): selecting it
    when it is the selected one leads to no selection, selecting it in any
    other state leads to [Selected id], closing leads to no selection from
    every state, and so selecting [id] twice from a state where it is not
    the selected one ends in no selection. *)
Theorem selection_transitions (id s : string) :
  id ≠ ""%string →
  (selection s = Selected id →
     selection (handleSelectMovie id s) = NoSelection)
  ∧ (selection s ≠ Selected id →
     selection (handleSelectMovie id s) = Selected id)
  ∧ selection (handleCloseMovie s) = NoSelection
  ∧ (selection s ≠ Selected id →
     selection (handleSelectMovie id (handleSelectMovie id s)) = NoSelection).
Proof.
  intros Hid. unfold selection, handleSelectMovie, handleCloseMovie.
  repeat split; try intros Hs;
    repeat (case_decide; simplify_eq; try done).
Qed.

Lemma selection_transitions_witness :
  selection (handleSelectMovie "tt0133093" "tt0133093") = NoSelection
  ∧ selection (handleSelectMovie "tt0133093" "tt0234215")
    = Selected "tt0133093"
  ∧ selection (handleSelectMovie "tt0133093"
                 (handleSelectMovie "tt0133093" "")) = NoSelection.
Proof.
  assert ("tt0133093" ≠ ""%string) as Hid by discriminate.
  destruct (selection_transitions "tt0133093" "tt0133093" Hid) as (H1 & _).
  destruct (selection_transitions "tt0133093" "tt0234215" Hid)
    as (_ & H2 & _).
  destruct (selection_transitions "tt0133093" "" Hid) as (_ & _ & _ & H4).
  split; [|split].
  - apply H1. reflexivity.
  - apply H2. discriminate.
  - apply H4. discriminate.
Defined.

(** ** The watched list *)

Lemma filter_all {A} (p : A → bool) (l : list A) :
  (∀ x, x ∈ l → p x = true) → List.filter p l = l.
Proof.
  induction l as [|x l IH]; intros Hall; simpl; [reflexivity|].
  rewrite Hall by left. f_equal. apply IH. intros y Hy. apply Hall. by right.
Qed.

Lemma strict_ne_true (a b : opt string) :
  strict_ne a b = true ↔ a ≠ b.
Proof.
  unfold strict_ne, strict_eq. rewrite negb_true_iff, bool_decide_eq_false.
  reflexivity.
Qed.

Lemma handleDeleteWatched_elem (id : opt string) (L : list WatchedMovie)
    (w : WatchedMovie) :
  w ∈ handleDeleteWatched id L ↔ w ∈ L ∧ WatchedMovie.imdbID w ≠ id.
Proof.
  unfold handleDeleteWatched.
  rewrite !list_elem_of_In, filter_In, strict_ne_true. reflexivity.
Qed.

(** C6. In a watched list of pairwise distinct identifiers, deleting by
    [id] takes out the one entry with that identifier and keeps what
    stands before and after it as it is; where no entry has the identifier
    the list stays as it is. *)
Theorem delete_removes_exactly (id : opt string) (L : list WatchedMovie) :
  NoDup (map WatchedMovie.imdbID L) →
  (∀ l1 e l2, L = l1 ++ e :: l2 → WatchedMovie.imdbID e = id →
     handleDeleteWatched id L = l1 ++ l2)
  ∧ ((∀ e, e ∈ L → WatchedMovie.imdbID e ≠ id) →
     handleDeleteWatched id L = L).
Proof.
  intros Hnd. split.
  - intros l1 e l2 -> He. unfold handleDeleteWatched.
    rewrite map_app in Hnd. simpl in Hnd.
    apply NoDup_app in Hnd as (_ & Hl1 & Hl2).
    apply NoDup_cons in Hl2 as [Hl2 _].
    rewrite List.filter_app. simpl.
    replace (strict_ne (WatchedMovie.imdbID e) id) with false
      by (symmetry; apply not_true_iff_false; rewrite strict_ne_true; tauto).
    f_equal; apply filter_all; intros x Hx; apply strict_ne_true;
      intros Hxid.
    + apply (Hl1 id).
      * rewrite <- Hxid. by apply list_elem_of_fmap_2.
      * rewrite <- He. left.
    + apply Hl2. rewrite He, <- Hxid. by apply list_elem_of_fmap_2.
  - intros Hno. apply filter_all. intros x Hx. apply strict_ne_true.
    by apply Hno.
Qed.

Lemma delete_removes_exactly_witness :
  NoDup (map WatchedMovie.imdbID [one_movie; other_movie; no_runtime_movie])
  ∧ handleDeleteWatched (val "tt0234215"%string)
      [one_movie; other_movie; no_runtime_movie]
    = [one_movie; no_runtime_movie].
Proof.
  assert (NoDup (map WatchedMovie.imdbID
                   [one_movie; other_movie; no_runtime_movie])) as Hnd
    by (apply (bool_decide_unpack _); vm_compute; exact I).
  split; [exact Hnd|].
  destruct (delete_removes_exactly (val "tt0234215"%string) _ Hnd)
    as [Hrm _].
  apply (Hrm [one_movie] other_movie [no_runtime_movie]); reflexivity.
Defined.

(** *** Distinct identifiers *)

Lemma NoDup_map_filter {A B} (f : A → B) (p : A → bool) (l : list A) :
  NoDup (map f l) → NoDup (map f (List.filter p l)).
Proof.
  induction l as [|x l IH]; simpl; [done|].
  intros [Hx Hl]%NoDup_cons. destruct (p x); simpl; [|by apply IH].
  apply NoDup_cons. split; [|by apply IH].
  intros (y & Hy & Hin)%list_elem_of_fmap. apply Hx.
  rewrite Hy. apply list_elem_of_fmap_2.
  apply list_elem_of_In. apply list_elem_of_In, filter_In in Hin. tauto.
Qed.

(** [find] comes back empty-handed only when no element passes. *)
Lemma find_nullish {A} (p : A → bool) (l : list A) :
  match find p l with val _ => False | _ => True end →
  ∀ x, x ∈ l → p x = false.
Proof.
  induction l as [|y l IH]; simpl; intros Hf x Hx.
  - by apply elem_of_nil in Hx.
  - destruct (p y) eqn:Hy; [done|].
    apply elem_of_cons in Hx as [->|Hx]; [done|]. by apply IH.
Qed.

Lemma add_shown_fresh (selectedId : string) (watched : list WatchedMovie)
    (d : Details.state) :
  Details.add_shown selectedId watched d = true →
  val selectedId ∉ map WatchedMovie.imdbID watched.
Proof.
  unfold Details.add_shown, Details.rating_shown, Details.watchedMovie.
  intros Hshown (w & Hw & Hin)%list_elem_of_fmap.
  apply andb_true_iff in Hshown as [Hshown _].
  apply andb_true_iff in Hshown as [_ Hfind].
  assert (strict_eq (WatchedMovie.imdbID w) (val selectedId) = false) as Hne.
  { apply (find_nullish
             (fun w => strict_eq (WatchedMovie.imdbID w) (val selectedId))
             watched); [|exact Hin].
    destruct (find _ watched); [done|done|discriminate]. }
  unfold strict_eq in Hne. apply bool_decide_eq_false in Hne. by apply Hne.
Qed.

Section Invariant.

Context (StringToNumber : string → number).

Lemma watched_setSelectedId (id : string) (w : World) :
  watched (setSelectedId id w) = watched w.
Proof.
  unfold setSelectedId, request.
  repeat (case_decide || case_match); reflexivity.
Qed.

Lemma watched_settle (k : nat) (o : FetchOutcome) (w : World) :
  watched (settle k o w) = watched w.
Proof. unfold settle. repeat case_match; reflexivity. Qed.

(** Every event leaves the watched list as it is, appends the entry that
    [handleAdd] makes, or filters the list. *)
Lemma step_distinct (w : World) (e : Event) :
  NoDup (map WatchedMovie.imdbID (watched w)) →
  NoDup (map WatchedMovie.imdbID (watched (step StringToNumber w e))).
Proof.
  intros Hnd. destruct e as [id| |k o|r| |id]; unfold step.
  - by rewrite watched_setSelectedId.
  - by rewrite watched_setSelectedId.
  - by rewrite watched_settle.
  - repeat case_match; done.
  - destruct (details w) as [d|]; [|done].
    destruct (Details.add_shown _ _ d) eqn:Hshown; [|done].
    unfold handleAdd. rewrite watched_setSelectedId.
    unfold setWatched, handleAddWatched. simpl. rewrite map_app. simpl.
    apply NoDup_app. split; [done|]. split; [|apply NoDup_singleton].
    intros x Hx ->%list_elem_of_singleton.
    by apply (add_shown_fresh _ _ _ Hshown).
  - case_decide; [|done]. unfold setWatched. simpl.
    by apply NoDup_map_filter.
Qed.

End Invariant.

(** C8. Starting from a watched list of pairwise distinct identifiers,
    whatever the user and the network do (the add through the detail view,
    whose button is there only when the selected identifier is not in the
    list, and the delete by identifier among it), the identifiers in the
    watched list stay pairwise distinct. *)
Theorem distinct_ids_preserved (StringToNumber : string → number)
    (w : World) (es : list Event) :
  NoDup (map WatchedMovie.imdbID (watched w)) →
  NoDup (map WatchedMovie.imdbID (watched (run StringToNumber w es))).
Proof.
  unfold run. revert w.
  induction es as [|e es IH]; intros w Hnd; simpl; [done|].
  apply IH. by apply step_distinct.
Qed.

Lemma distinct_ids_preserved_witness :
  NoDup (map WatchedMovie.imdbID (watched started))
  ∧ NoDup (map WatchedMovie.imdbID
             (watched (run no_number started rate_twice)))
  ∧ length (watched (run no_number started rate_twice)) = 1%nat.
Proof.
  assert (NoDup (map WatchedMovie.imdbID (watched started))) as Hnd
    by (simpl; constructor).
  split; [exact Hnd|]. split; [|reflexivity].
  apply (distinct_ids_preserved no_number started rate_twice Hnd).
Defined.

(** ** Persistence *)

Lemma read_app (k : string) (l1 l2 : list (string * json)) :
  read k (l1 ++ l2)
  = match read k l2 with
    | Some j => Some j
    | None => read k l1
    end.
Proof.
  induction l1 as [|[k' j] l1 IH]; simpl.
  - by destruct (read k l2).
  - rewrite IH. by destruct (read k l2).
Qed.

Lemma read_member {A} (write : A → json) (k k' : string) (v : opt A) :
  read k (member write k' v)
  = if decide (k = k')
    then match v with
         | undefined => None
         | null => Some JNull
         | val a => Some (write a)
         end
    else None.
Proof. destruct v; simpl; by case_decide. Qed.

(** Reading one property back out of [members_of w]: every other member
    has another name. *)
Ltac read_back :=
  unfold read_string, read_number, members_of;
  rewrite ?read_app, ?read_member; simpl.

Lemma read_imdbID (w : WatchedMovie) :
  read_string "imdbID" (members_of w) = Some (WatchedMovie.imdbID w).
Proof. read_back. by destruct (WatchedMovie.imdbID w). Qed.

Lemma read_Title (w : WatchedMovie) :
  read_string "Title" (members_of w) = Some (WatchedMovie.Title w).
Proof. read_back. by destruct (WatchedMovie.Title w). Qed.

Lemma read_Year (w : WatchedMovie) :
  read_string "Year" (members_of w) = Some (WatchedMovie.Year w).
Proof. read_back. by destruct (WatchedMovie.Year w). Qed.

Lemma read_Poster (w : WatchedMovie) :
  read_string "Poster" (members_of w) = Some (WatchedMovie.Poster w).
Proof. read_back. by destruct (WatchedMovie.Poster w). Qed.

Lemma read_runtime (w : WatchedMovie) :
  read_number "runtime" (members_of w)
  = Some (reread_number (WatchedMovie.runtime w)).
Proof. read_back. by destruct (WatchedMovie.runtime w) as [| |[]]. Qed.

Lemma read_imdbRating (w : WatchedMovie) :
  read_number "imdbRating" (members_of w)
  = Some (reread_number (WatchedMovie.imdbRating w)).
Proof. read_back. by destruct (WatchedMovie.imdbRating w) as [| |[]]. Qed.

Lemma read_userRating (w : WatchedMovie) :
  read_number "userRating" (members_of w)
  = Some (reread_number (WatchedMovie.userRating w)).
Proof. read_back. by destruct (WatchedMovie.userRating w) as [| |[]]. Qed.

Lemma read_countRatingDecisions (w : WatchedMovie) :
  read_number "countRatingDecisions" (members_of w)
  = Some (reread_number (WatchedMovie.countRatingDecisions w)).
Proof.
  read_back. by destruct (WatchedMovie.countRatingDecisions w) as [| |[]].
Qed.

Lemma as_movie_write_movie (w : WatchedMovie) :
  as_movie (write_movie w) = Some (reread w).
Proof.
  unfold as_movie, write_movie.
  rewrite read_imdbID, read_Title, read_Year, read_Poster, read_runtime,
    read_imdbRating, read_userRating, read_countRatingDecisions.
  reflexivity.
Qed.

Lemma as_T_stringify (L : list WatchedMovie) :
  mapM as_movie (map write_movie L) = Some (map reread L).
Proof.
  induction L as [|w L IH]; [reflexivity|].
  cbn -[as_movie write_movie]. rewrite as_movie_write_movie.
  cbn -[as_movie write_movie]. rewrite IH. reflexivity.
Qed.

(** What comes back is the list with every number that is not finite
    turned into [null]. *)
Lemma load_save_reread (init : list WatchedMovie) (key : string)
    (L : list WatchedMovie) (store : gmap string text) :
  load init key (save key L store) = Got (map reread L).
Proof.
  unfold load, save, setItem, getItem. rewrite lookup_insert_eq. simpl.
  by rewrite as_T_stringify.
Qed.

Lemma reread_number_writable (v : opt number) :
  writable v → reread_number v = v.
Proof. by destruct v as [| |[]]. Qed.

Lemma reread_writable (w : WatchedMovie) : all_writable w → reread w = w.
Proof.
  destruct w. unfold all_writable, reread. simpl. intros (?&?&?&?).
  by rewrite !reread_number_writable.
Qed.

(** On an empty store the application starts with the empty list, and
    writes it down. *)
Example mount_empty_store : mount ∅ = Got started.
Proof. reflexivity. Qed.

(** C5, as amended. For every watched list in which each numeric property
    of each entry is missing, [null] or finite, loading after saving gives
    back an equal list: the same entries, in the same order, with the same
    property values. *)
Theorem load_after_save (init : list WatchedMovie) (key : string)
    (L : list WatchedMovie) (store : gmap string text) :
  Forall all_writable L →
  load init key (save key L store) = Got L.
Proof.
  intros HL. rewrite load_save_reread. f_equal.
  induction HL as [|w L Hw _ IH]; simpl; [reflexivity|].
  by rewrite reread_writable, IH.
Qed.

Lemma load_after_save_witness :
  Forall all_writable [one_movie; other_movie]
  ∧ load [] "watched" (save "watched" [one_movie; other_movie] ∅)
    = Got [one_movie; other_movie].
Proof.
  assert (Forall all_writable [one_movie; other_movie]) as HL
    by (repeat constructor).
  split; [exact HL|].
  apply (load_after_save [] "watched" [one_movie; other_movie] ∅ HL).
Defined.

(** C5 fails as stated: an entry whose runtime is [NaN] (the record said
    "N/A") comes back with runtime [null]. *)
Lemma NaN_lost_in_round_trip :
  load [] "watched" (save "watched" [no_runtime_movie] ∅)
  ≠ Got [no_runtime_movie]
  ∧ ∃ back,
      load [] "watched" (save "watched" [no_runtime_movie] ∅) = Got [back]
      ∧ WatchedMovie.runtime no_runtime_movie = val NaN
      ∧ WatchedMovie.runtime back = null.
Proof.
  rewrite load_save_reread. split; [discriminate|].
  eexists. repeat split.
Qed.

(** C2, as amended. Where nothing is stored under the key, and where the
    stored text is the JSON document [null], loading gives the initial
    state (the empty watched list in [App]). Where the stored text cannot
    be parsed, [JSON.parse] throws and nothing catches it: the state
    initializer ends in a [SyntaxError], not in the empty list. *)
Theorem load_absent_or_unparseable {T} `{Stored T} (init : T)
    (key : string) (store : gmap string text) :
  (getItem store key = None → load init key store = Got init)
  ∧ (getItem store key = Some (Document JNull) →
     load init key store = Got init)
  ∧ (∀ s, getItem store key = Some (Garbage s) →
     load init key store = Threw Unexpected_token).
Proof.
  unfold load. repeat split; [intros -> | intros -> | intros s ->]; done.
Qed.

Lemma load_absent_or_unparseable_witness :
  load ([] : list WatchedMovie) "watched" ∅ = Got []
  ∧ load ([] : list WatchedMovie) "watched"
      {[ "watched"%string := Garbage "[{" ]}
    = Threw Unexpected_token.
Proof.
  split.
  - destruct (load_absent_or_unparseable ([] : list WatchedMovie) "watched"
                ∅) as (Hnone & _).
    apply Hnone. reflexivity.
  - destruct (load_absent_or_unparseable ([] : list WatchedMovie) "watched"
                {[ "watched"%string := Garbage "[{" ]}) as (_ & _ & Hbad).
    apply (Hbad "[{"%string). reflexivity.
Defined.

(** C2 fails as stated: with a text under the key that is no JSON, the
    load throws; with that store the application does not come up. *)
Lemma corrupt_storage_throws :
  load ([] : list WatchedMovie) "watched"
    {[ "watched"%string := Garbage "[{" ]}
  ≠ Got []
  ∧ mount {[ "watched"%string := Garbage "[{" ]} = Threw Unexpected_token.
Proof. split; [discriminate | reflexivity]. Qed.

(** ** The detail fetch *)

(** The places of the last and of the last two requests in the list. *)
Lemma one_behind {X} (l : list X) (a : X) :
  (l ++ [a]) !! length l = Some a ∧ delete (length l) (l ++ [a]) = l.
Proof.
  induction l as [|x l [IH1 IH2]]; [done|]. simpl. split; [done|].
  by rewrite IH2.
Qed.

Lemma two_behind {X} (l : list X) (a b : X) :
  (l ++ [a; b]) !! length l = Some a
  ∧ (l ++ [a; b]) !! S (length l) = Some b
  ∧ delete (length l) (l ++ [a; b]) = l ++ [b]
  ∧ delete (S (length l)) (l ++ [a; b]) = l ++ [a].
Proof.
  induction l as [|x l (IH1 & IH2 & IH3 & IH4)]; [done|]. simpl.
  repeat split; [done|done| |].
  - by rewrite IH3.
  - by rewrite IH4.
Qed.

Section Fetch.

Context (StringToNumber : string → number).

(** A response with a body that parses is applied to the view that asked
    for it as long as that view is mounted, whatever is selected by then:
    nothing compares the identifier asked for with [selectedId]. *)
Lemma settle_applies (w : World) (d : Details.state) (k : nat)
    (id : string) (status : nat) (data : MovieDetails) :
  details w = Some d →
  inflight w !! k = Some (Details.instance d, id) →
  settle k (Body status data) w
  = mkWorld (watched w) (selectedId w)
            (Some (Details.setIsLoading false (Details.setMovie data d)))
            (localStorage w) (delete k (inflight w)) (mounts w)
            (unhandled w).
Proof.
  intros Hd Hk. unfold settle. rewrite Hk, Hd. simpl.
  by rewrite decide_True.
Qed.

(** A request that fails leaves the view as it is and the rejection
    uncaught. *)
Lemma settle_rejects (w : World) (k : nat) (i : nat) (id : string)
    (o : FetchOutcome) (r : Rejection) :
  inflight w !! k = Some (i, id) →
  Details.getMovieDetails_resume o = inl r →
  settle k o w
  = mkWorld (watched w) (selectedId w) (details w) (localStorage w)
            (delete k (inflight w)) (mounts w) (unhandled w ++ [r]).
Proof. intros Hk Ho. unfold settle. by rewrite Hk, Ho. Qed.

(** A click on a movie with nothing selected mounts a view, which starts
    loading and sends its request. *)
Lemma click_mounts (w : World) (A : string) :
  details w = None → selectedId w = ""%string → A ≠ ""%string →
  step StringToNumber w (ClickMovie A)
  = mkWorld (watched w) A
            (Some (Details.setIsLoading true (Details.initial (mounts w))))
            (localStorage w) (inflight w ++ [(mounts w, A)])
            (S (mounts w)) (unhandled w).
Proof.
  intros Hd Hs HA. unfold step, handleSelectMovie, setSelectedId.
  rewrite Hs, Hd. rewrite (decide_False (P := ""%string = A)) by done.
  by rewrite (decide_False (P := A = ""%string)) by done.
Qed.

(** A click on another movie keeps the view, which starts loading again
    and sends a second request. *)
Lemma click_changes (w : World) (d : Details.state) (B : string) :
  details w = Some d → selectedId w ≠ B → B ≠ ""%string →
  step StringToNumber w (ClickMovie B)
  = request d
      (mkWorld (watched w) B (details w) (localStorage w) (inflight w)
               (mounts w) (unhandled w)).
Proof.
  intros Hd Hs HB. unfold step, handleSelectMovie, setSelectedId.
  rewrite Hd. rewrite (decide_False (P := selectedId w = B)) by done.
  rewrite (decide_False (P := B = ""%string)) by done.
  by rewrite (decide_False (P := B = selectedId w)) by done.
Qed.

(** Selecting [A] and then [B] with nothing selected before: one view,
    loading, with the request for [A] and the request for [B] on their
    way behind those that were. *)
Lemma select_A_then_B (w : World) (A B : string) :
  details w = None → selectedId w = ""%string →
  A ≠ ""%string → B ≠ ""%string → A ≠ B →
  run StringToNumber w [ClickMovie A; ClickMovie B]
  = mkWorld (watched w) B
            (Some (Details.setIsLoading true (Details.initial (mounts w))))
            (localStorage w)
            (inflight w ++ [(mounts w, A); (mounts w, B)])
            (S (mounts w)) (unhandled w).
Proof.
  intros Hd Hs HA HB HAB. unfold run. cbn [foldl].
  rewrite (click_mounts w A) by done.
  erewrite click_changes; [|reflexivity|done|done].
  unfold request. simpl. by rewrite <- app_assoc.
Qed.

End Fetch.

(** Run the next [Settle] of a response that parses, in a world that is
    written out; what is left is to find the request in the list. *)
Ltac settle_next :=
  match goal with
  | |- context [settle ?k (Body ?s ?data)
                  (mkWorld ?a ?b (Some ?d) ?e ?f ?g ?h)] =>
      erewrite (settle_applies (mkWorld a b (Some d) e f g h) d k _ s data
                  eq_refl);
      cbn [watched selectedId details localStorage inflight mounts unhandled
           Details.instance Details.setIsLoading Details.setMovie
           Details.initial];
      [|]; cycle 1
  end.

(** C1, as amended. No response is discarded while the detail view stays
    mounted. After [A] and then [B] are selected, with both requests on
    their way: if the response for [A] comes first and the one for [B]
    second, the view ends showing the record for [B]; if the response for
    [B] comes first and the one for [A] after it, the view ends showing the
    record for [A], with [B] still the selected identifier. *)
Theorem last_response_wins (StringToNumber : string → number)
    (w : World) (A B : string) (sA sB : nat) (dataA dataB : MovieDetails) :
  details w = None → selectedId w = ""%string →
  A ≠ ""%string → B ≠ ""%string → A ≠ B →
  let n := length (inflight w) in
  let w2 := run StringToNumber w [ClickMovie A; ClickMovie B] in
  let A_then_B :=
    run StringToNumber w2 [Settle n (Body sA dataA); Settle n (Body sB dataB)] in
  let B_then_A :=
    run StringToNumber w2
      [Settle (S n) (Body sB dataB); Settle n (Body sA dataA)] in
  (selectedId A_then_B = B
   ∧ Details.render <$> details A_then_B = Some (Details.Panel dataB))
  ∧ (selectedId B_then_A = B
     ∧ Details.render <$> details B_then_A = Some (Details.Panel dataA)).
Proof.
  intros Hd Hs HA HB HAB n w2 A_then_B B_then_A.
  subst A_then_B B_then_A w2. rewrite select_A_then_B by done.
  destruct (two_behind (inflight w) (mounts w, A) (mounts w, B))
    as (HfindA & HfindB & HrestB & HrestA).
  destruct (one_behind (inflight w) (mounts w, A)) as [HlastA _].
  destruct (one_behind (inflight w) (mounts w, B)) as [HlastB _].
  unfold run. cbn [foldl step]. subst n. split.
  - settle_next; [exact HfindA|]. rewrite HrestB.
    settle_next; [exact HlastB|]. done.
  - settle_next; [exact HfindB|]. rewrite HrestA.
    settle_next; [exact HlastA|]. done.
Qed.

Lemma last_response_wins_witness :
  Details.render <$> details
    (run no_number started
       [ClickMovie "tt0133093"; ClickMovie "tt0234215";
        Settle 0 (Body 200 details_A); Settle 0 (Body 200 details_B)])
  = Some (Details.Panel details_B)
  ∧ Details.render <$> details
      (run no_number started
         [ClickMovie "tt0133093"; ClickMovie "tt0234215";
          Settle 1 (Body 200 details_B); Settle 0 (Body 200 details_A)])
    = Some (Details.Panel details_A).
Proof.
  destruct (last_response_wins no_number started "tt0133093" "tt0234215"
              200 200 details_A details_B eq_refl eq_refl
              ltac:(discriminate) ltac:(discriminate) ltac:(discriminate))
    as [[_ HAB] [_ HBA]].
  split; [exact HAB | exact HBA].
Defined.

(** C1 fails as stated: the first movie is selected, then the second;
    the response for the second arrives, then the late response for the
    first. The second movie is the selected one and the view shows the
    record of the first. *)
Lemma stale_response_overwrites :
  let w := run no_number started
             [ClickMovie "tt0133093"; ClickMovie "tt0234215";
              Settle 1 (Body 200 details_B); Settle 0 (Body 200 details_A)] in
  selectedId w = "tt0234215"%string
  ∧ Details.render <$> details w = Some (Details.Panel details_A)
  ∧ MovieDetails.imdbID details_A = val "tt0133093"%string
  ∧ Details.render <$> details w ≠ Some (Details.Panel details_B).
Proof. vm_compute. repeat split. discriminate. Qed.

(** C3, on the code. A movie is selected: the view shows the loader. Then
    the request fails. When [fetch] rejects, and when the body is no JSON,
    the rejection is caught by nothing, the view has no state that holds an
    error, and the loader stays. When the server answers with a
    non-success status and a JSON body, the body is taken for the record
    and shown, with no error. *)
Theorem failed_fetch_stays_loading :
  let loading := run no_number started [ClickMovie "tt0133093"] in
  let failed := run no_number loading [Settle 0 NetworkError] in
  let garbled := run no_number loading [Settle 0 (BadBody 200)] in
  let refused :=
    run no_number loading [Settle 0 (Body 401 MovieDetails.empty)] in
  Details.render <$> details loading = Some Details.Loader
  ∧ (Details.render <$> details failed = Some Details.Loader
     ∧ unhandled failed = [TypeError_failed_to_fetch]
     ∧ inflight failed = [])
  ∧ (Details.render <$> details garbled = Some Details.Loader
     ∧ unhandled garbled = [SyntaxError_in_body]
     ∧ inflight garbled = [])
  ∧ (Details.render <$> details refused
     = Some (Details.Panel MovieDetails.empty)
     ∧ unhandled refused = []).
Proof. vm_compute. repeat split. Qed.

(** * Further properties of the code *)

(** ** The watched list and the result list *)

Lemma filter_comm {A} (p q : A → bool) (l : list A) :
  List.filter p (List.filter q l) = List.filter q (List.filter p l).
Proof.
  induction l as [|x l IH]; simpl; [reflexivity|].
  destruct (p x) eqn:Hp, (q x) eqn:Hq; simpl; rewrite ?Hp, ?Hq, IH;
    reflexivity.
Qed.

(** X1. Deleting by an identifier a second time changes nothing, and two
    deletions give the same list in either order. *)
Theorem delete_idempotent_commutes (a b : opt string)
    (L : list WatchedMovie) :
  handleDeleteWatched a (handleDeleteWatched a L) = handleDeleteWatched a L
  ∧ handleDeleteWatched a (handleDeleteWatched b L)
    = handleDeleteWatched b (handleDeleteWatched a L).
Proof.
  split; [|apply filter_comm].
  apply filter_all. intros x Hx.
  apply handleDeleteWatched_elem in Hx as [_ Hne]. by apply strict_ne_true.
Qed.

(** X2. Deleting the identifier of an entry that was just added, and that
    no entry had before, gives the list back as it was. *)
Theorem delete_undoes_add (m : WatchedMovie) (L : list WatchedMovie) :
  WatchedMovie.imdbID m ∉ map WatchedMovie.imdbID L →
  handleDeleteWatched (WatchedMovie.imdbID m) (handleAddWatched m L) = L.
Proof.
  intros Hfresh. unfold handleDeleteWatched, handleAddWatched.
  rewrite List.filter_app. simpl.
  replace (strict_ne (WatchedMovie.imdbID m) (WatchedMovie.imdbID m))
    with false
    by (symmetry; apply not_true_iff_false; rewrite strict_ne_true; tauto).
  rewrite app_nil_r. apply filter_all. intros x Hx. apply strict_ne_true.
  intros Heq. apply Hfresh. rewrite <- Heq. by apply list_elem_of_fmap_2.
Qed.

Lemma delete_undoes_add_witness :
  (WatchedMovie.imdbID other_movie ∉ map WatchedMovie.imdbID [one_movie])
  ∧ handleDeleteWatched (WatchedMovie.imdbID other_movie)
      (handleAddWatched other_movie [one_movie])
    = [one_movie].
Proof.
  assert (WatchedMovie.imdbID other_movie
          ∉ map WatchedMovie.imdbID [one_movie]) as Hfresh
    by (apply (bool_decide_unpack _); vm_compute; exact I).
  split; [exact Hfresh|].
  apply (delete_undoes_add other_movie [one_movie] Hfresh).
Defined.

Lemma find_val {A} (p : A → bool) (l : list A) (x : A) :
  find p l = val x → x ∈ l ∧ p x = true.
Proof.
  induction l as [|y l IH]; simpl; [discriminate|].
  destruct (p y) eqn:Hy.
  - intros [= ->]. split; [left | done].
  - intros Hf. destruct (IH Hf). split; [by right | done].
Qed.

Lemma find_not_null {A} (p : A → bool) (l : list A) : find p l ≠ null.
Proof. induction l as [|y l IH]; simpl; [done|]. by destruct (p y). Qed.

(** X3. The detail view finds a watched entry exactly when some entry of
    the list has the selected identifier, and what it finds is an entry of
    the list with that identifier (the one whose rating it then shows). *)
Theorem watchedMovie_found (selectedId : string)
    (watched : list WatchedMovie) :
  (val selectedId ∈ map WatchedMovie.imdbID watched
   ↔ ∃ e, Details.watchedMovie selectedId watched = val e)
  ∧ (∀ e, Details.watchedMovie selectedId watched = val e →
       e ∈ watched ∧ WatchedMovie.imdbID e = val selectedId).
Proof.
  unfold Details.watchedMovie.
  assert (∀ e,
    find (fun w => strict_eq (WatchedMovie.imdbID w) (val selectedId)) watched
    = val e → e ∈ watched ∧ WatchedMovie.imdbID e = val selectedId) as Hval.
  { intros e [Hin Hp]%find_val. split; [done|].
    by apply bool_decide_eq_true in Hp. }
  split; [|exact Hval]. split.
  - intros (e & He & Hin)%list_elem_of_fmap.
    destruct (find _ watched) as [| |e'] eqn:Hf; [| |by exists e'].
    + exfalso.
      assert (strict_eq (WatchedMovie.imdbID e) (val selectedId) = false)
        as Hne.
      { apply (find_nullish
                 (fun w => strict_eq (WatchedMovie.imdbID w) (val selectedId))
                 watched); [by rewrite Hf | done]. }
      apply bool_decide_eq_false in Hne. by apply Hne.
    + by apply find_not_null in Hf.
  - intros [e He]. destruct (Hval e He) as [Hin Hid].
    rewrite <- Hid. by apply list_elem_of_fmap_2.
Qed.

(** X4. A click on a result that has no identifier (the property is
    missing, [null] or the empty text) never opens the detail view: from
    every state it ends with nothing selected. *)
Theorem click_without_identifier (imdbID : opt string) (selectedId : string) :
  or_empty imdbID = ""%string →
  selection (Movie_onClick imdbID selectedId) = NoSelection.
Proof.
  intros Hid. unfold Movie_onClick, handleSelectMovie. rewrite Hid.
  by case_decide.
Qed.

Lemma click_without_identifier_witness :
  selection (Movie_onClick undefined "tt0133093") = NoSelection.
Proof.
  apply (click_without_identifier undefined "tt0133093"). reflexivity.
Defined.

(** X5. The Enter key in the search box: with the input focused nothing
    happens, so what is typed stays; elsewhere the input ends focused with
    an empty query; and a second Enter right after changes nothing. *)
Theorem enter_focuses_once (s : SearchBox) :
  focused (Search_onEnter s) = true
  ∧ (focused s = true → Search_onEnter s = s)
  ∧ (focused s = false → query (Search_onEnter s) = ""%string)
  ∧ Search_onEnter (Search_onEnter s) = Search_onEnter s.
Proof. destruct s as [q []]; repeat split; done. Qed.

(** ** The runtime text *)

Lemma split_head_app (a b : string) :
  spaceless a → split_head (a +:+ String " "%char b) = a.
Proof.
  induction a as [|c a IH]; simpl; [reflexivity|].
  intros [Hc Ha]. destruct (Ascii.eqb_spec c " "%char) as [->|_]; [done|].
  f_equal. by apply IH.
Qed.

Lemma split_head_spaceless (s : string) : spaceless (split_head s).
Proof.
  induction s as [|c s IH]; simpl; [done|].
  destruct (Ascii.eqb_spec c " "%char) as [->|Hc]; simpl; done.
Qed.

(** X6. [split(" ")[0]] gives what stands before the first space: a text
    without a space, the text itself when it has none, and [a] for [a]
    followed by a space and anything, when [a] has no space. *)
Theorem split_head_before_space (a : string) :
  spaceless a →
  split_head a = a
  ∧ (∀ b, split_head (a +:+ String " "%char b) = a)
  ∧ (∀ s, spaceless (split_head s)).
Proof.
  intros Ha. split; [|split].
  - induction a as [|c a IH]; simpl; [reflexivity|].
    destruct Ha as [Hc Ha].
    destruct (Ascii.eqb_spec c " "%char) as [->|_]; [done|].
    f_equal. by apply IH.
  - intros b. by apply split_head_app.
  - apply split_head_spaceless.
Qed.

Lemma split_head_before_space_witness :
  spaceless "142" ∧ split_head "142 min" = "142"%string.
Proof.
  assert (spaceless "142") as Ha by (simpl; repeat split; discriminate).
  split; [exact Ha|].
  destruct (split_head_before_space "142" Ha) as (_ & Hab & _).
  apply (Hab "min"%string).
Defined.

(** ** The store *)

(** X7. Of two saves of watched lists under one key the last one wins:
    the store is as if only the second had happened, and loading gives the
    second list (as read back). A save leaves what is loaded under every
    other key as it was. *)
Theorem save_overwrites_one_key (init : list WatchedMovie)
    (key other : string) (v1 v2 : list WatchedMovie)
    (store : gmap string text) :
  load init key (save key v2 (save key v1 store)) = Got (map reread v2)
  ∧ save key v2 (save key v1 store) = save key v2 store
  ∧ (key ≠ other →
     load init other (save key v1 store) = load init other store).
Proof.
  split; [apply load_save_reread|].
  unfold save, setItem, load, getItem. split.
  - apply insert_insert_eq.
  - intros Hne. by rewrite lookup_insert_ne.
Qed.

Lemma save_overwrites_one_key_witness :
  load ([] : list WatchedMovie) "other" (save "watched" [one_movie] ∅)
  = load ([] : list WatchedMovie) "other" ∅.
Proof.
  destruct (save_overwrites_one_key ([] : list WatchedMovie) "watched"
              "other" [one_movie] [one_movie] ∅) as (_ & _ & Hother).
  apply Hother. discriminate.
Defined.

Section Sync.

Context (StringToNumber : string → number).

Lemma localStorage_setSelectedId (id : string) (w : World) :
  localStorage (setSelectedId id w) = localStorage w.
Proof.
  unfold setSelectedId, request.
  repeat (case_decide || case_match); reflexivity.
Qed.

Lemma localStorage_settle (k : nat) (o : FetchOutcome) (w : World) :
  localStorage (settle k o w) = localStorage w.
Proof. unfold settle. repeat case_match; reflexivity. Qed.

Lemma in_sync_setSelectedId (id : string) (w : World) :
  in_sync w → in_sync (setSelectedId id w).
Proof.
  unfold in_sync. by rewrite localStorage_setSelectedId, watched_setSelectedId.
Qed.

Lemma in_sync_setWatched (f : list WatchedMovie → list WatchedMovie)
    (w : World) :
  in_sync (setWatched f w).
Proof. unfold in_sync, setWatched, save, setItem. simpl. apply lookup_insert_eq. Qed.

Lemma step_in_sync (w : World) (e : Event) :
  in_sync w → in_sync (step StringToNumber w e).
Proof.
  intros Hw. destruct e as [id| |k o|r| |id]; unfold step.
  - by apply in_sync_setSelectedId.
  - by apply in_sync_setSelectedId.
  - unfold in_sync. by rewrite localStorage_settle, watched_settle.
  - repeat case_match; done.
  - repeat case_match; try done. unfold handleAdd.
    apply in_sync_setSelectedId, in_sync_setWatched.
  - case_decide; [|done]. apply in_sync_setWatched.
Qed.

Lemma run_in_sync (w : World) (es : list Event) :
  in_sync w → in_sync (run StringToNumber w es).
Proof.
  unfold run. revert w. induction es as [|e es IH]; intros w Hw; simpl;
    [done|].
  apply IH. by apply step_in_sync.
Qed.

End Sync.

(** X9. The store follows the watched list: if the text under "watched"
    is the watched list as [JSON.stringify] writes it (as it is once [App]
    has mounted), it still is after every sequence of events. *)
Theorem store_follows_watched (StringToNumber : string → number)
    (w : World) (es : list Event) :
  in_sync w → in_sync (run StringToNumber w es).
Proof. apply run_in_sync. Qed.

Lemma store_follows_watched_witness :
  in_sync started ∧ in_sync (run no_number started rate_twice).
Proof.
  assert (in_sync started) as Hw by reflexivity.
  split; [exact Hw|].
  apply (store_follows_watched no_number started rate_twice Hw).
Defined.

(** X10. A restart: mounting [App] on the store that a session leaves
    behind starts with the watched list of that session, each number that
    is not finite turned into [null], nothing selected and no request on
    its way. *)
Theorem restart_restores_watched (StringToNumber : string → number)
    (w : World) (es : list Event) :
  in_sync w →
  let w' := run StringToNumber w es in
  mount (localStorage w')
  = Got (mkWorld (map reread (watched w')) ""%string None
                 (save "watched" (map reread (watched w')) (localStorage w'))
                 [] O []).
Proof.
  intros Hw w'. apply (run_in_sync StringToNumber w es) in Hw.
  unfold mount, load, getItem. fold w' in Hw. rewrite Hw. simpl.
  by rewrite as_T_stringify.
Qed.

Lemma restart_restores_watched_witness :
  in_sync started
  ∧ mount (localStorage (run no_number started rate_twice))
    = Got (mkWorld (map reread (watched (run no_number started rate_twice)))
                   ""%string None
                   (save "watched"
                      (map reread (watched (run no_number started rate_twice)))
                      (localStorage (run no_number started rate_twice)))
                   [] O []).
Proof.
  assert (in_sync started) as Hw by reflexivity.
  split; [exact Hw|].
  apply (restart_restores_watched no_number started rate_twice Hw).
Defined.

(** ** The aggregate on numbers that are not finite *)

Lemma add_NaN_r (x : number) : add x NaN = NaN.
Proof. by destruct x. Qed.

Lemma reduce_from_NaN (arr rest : list number) (i : nat) :
  reduce_from
    (fun acc cur (_ : nat) arr => add acc (div cur (of_nat (length arr))))
    arr i NaN rest
  = NaN.
Proof. revert i. induction rest as [|cur rest IH]; intros i; simpl; done. Qed.

Lemma reduce_from_has_NaN (arr rest : list number) (i : nat)
    (acc : number) :
  NaN ∈ rest →
  reduce_from
    (fun acc cur (_ : nat) arr => add acc (div cur (of_nat (length arr))))
    arr i acc rest
  = NaN.
Proof.
  revert i acc. induction rest as [|cur rest IH]; intros i acc Hin.
  - by apply elem_of_nil in Hin.
  - simpl. apply elem_of_cons in Hin as [<-|Hin].
    + simpl. rewrite add_NaN_r. apply reduce_from_NaN.
    + by apply IH.
Qed.

Lemma average_NaN (arr : list number) : NaN ∈ arr → average arr = NaN.
Proof. apply reduce_from_has_NaN. Qed.

(** X11. One watched entry whose runtime is [NaN] (a record without a
    runtime, or with "N/A") makes the average runtime [NaN], and the
    summary shows NaN for it; likewise for the critic rating. *)
Theorem summary_shows_NaN (L : list WatchedMovie) (m : WatchedMovie) :
  m ∈ L →
  (WatchedMovie.runtime m = val NaN →
     runtime_shown (WatchedSummary L) = Some "NaN"%string)
  ∧ (WatchedMovie.imdbRating m = val NaN →
     imdb_shown (WatchedSummary L) = Some "NaN"%string).
Proof.
  intros Hin. unfold WatchedSummary, avgRuntime, avgImdbRating. simpl.
  split; intros Hm; rewrite average_NaN; try reflexivity;
    apply list_elem_of_fmap; exists m; by rewrite Hm.
Qed.

Lemma summary_shows_NaN_witness :
  runtime_shown (WatchedSummary [one_movie; no_runtime_movie])
  = Some "NaN"%string.
Proof.
  assert (no_runtime_movie ∈ [one_movie; no_runtime_movie]) as Hin
    by (right; left).
  destruct (summary_shows_NaN [one_movie; no_runtime_movie]
              no_runtime_movie Hin) as [Hrt _].
  apply Hrt. reflexivity.
Defined.

(** ** What every world keeps *)

Section Kept.

Context (StringToNumber : string → number).

Lemma consistent_setSelectedId (id : string) (w : World) :
  consistent w → consistent (setSelectedId id w).
Proof.
  unfold consistent, setSelectedId, request. intros [Hview Hreq].
  destruct (decide (id = ""%string)) as [->|Hid]; simpl; [done|].
  destruct (details w) as [d|] eqn:Hdet; simpl.
  - destruct Hview as [Hsel Hd]. case_decide; simpl.
    + by rewrite Hdet.
    + split; [done|]. apply Forall_app. split; [done|].
      by apply Forall_singleton.
  - split; [split; [done|lia]|]. apply Forall_app. split.
    + eapply Forall_impl; [exact Hreq|]. simpl. intros; lia.
    + apply Forall_singleton. simpl. lia.
Qed.

Lemma consistent_setWatched (f : list WatchedMovie → list WatchedMovie)
    (w : World) :
  consistent w → consistent (setWatched f w).
Proof. done. Qed.

Lemma consistent_settle (k : nat) (o : FetchOutcome) (w : World) :
  consistent w → consistent (settle k o w).
Proof.
  unfold consistent, settle. intros [Hview Hreq].
  destruct (inflight w !! k) as [[i id]|]; [|done].
  destruct (Details.getMovieDetails_resume o) as [r|update] eqn:Ho; simpl;
    (split; [|by apply Forall_delete]); [done|].
  destruct (details w) as [d|]; [|done].
  case_decide; [|done]. destruct o; simpl in Ho; simplify_eq. exact Hview.
Qed.

Lemma step_consistent (w : World) (e : Event) :
  consistent w → consistent (step StringToNumber w e).
Proof.
  intros Hw. destruct e as [id| |k o|r| |id]; unfold step.
  - by apply consistent_setSelectedId.
  - by apply consistent_setSelectedId.
  - by apply consistent_settle.
  - destruct (details w) as [d|] eqn:Hd; [|done]. case_match; [|done].
    unfold consistent in *. simpl. by rewrite Hd in Hw.
  - repeat case_match; try done.
    by apply consistent_setSelectedId, consistent_setWatched.
  - case_decide; [|done]. by apply consistent_setWatched.
Qed.

Lemma run_consistent (w : World) (es : list Event) :
  consistent w → consistent (run StringToNumber w es).
Proof.
  unfold run. revert w. induction es as [|e es IH]; intros w Hw; simpl;
    [done|].
  apply IH. by apply step_consistent.
Qed.

End Kept.

Section Selected.

Context (StringToNumber : string → number).

Lemma view_has_selection_setSelectedId (id : string) (w : World) :
  view_has_selection w → view_has_selection (setSelectedId id w).
Proof.
  unfold view_has_selection, setSelectedId, request. intros [Hview Hreq].
  destruct (decide (id = ""%string)) as [->|Hid]; simpl; [done|].
  destruct (details w) as [d|] eqn:Hdet; simpl.
  - destruct (Hview d eq_refl) as [Hsel Hd]. case_decide; simpl.
    + split; [|done]. rewrite Hdet. by intros ? [= <-].
    + split; [by intros ? [= <-]|]. apply Forall_app. split; [done|].
      by apply Forall_singleton.
  - split; [intros ? [= <-]; simpl; split; [done|lia]|].
    apply Forall_app. split.
    + eapply Forall_impl; [exact Hreq|]. simpl. intros; lia.
    + apply Forall_singleton. simpl. lia.
Qed.

Lemma view_has_selection_settle (k : nat) (o : FetchOutcome) (w : World) :
  view_has_selection w → view_has_selection (settle k o w).
Proof.
  unfold view_has_selection, settle. intros [Hview Hreq].
  destruct (inflight w !! k) as [[i id]|]; [|done].
  destruct (Details.getMovieDetails_resume o) as [r|update] eqn:Ho; simpl;
    (split; [|by apply Forall_delete]); [done|].
  destruct (details w) as [d|]; [|done].
  destruct (Hview d eq_refl) as [Hsel Hd].
  case_decide; [|by intros ? [= <-]].
  destruct o; simpl in Ho; simplify_eq. by intros ? [= <-].
Qed.

Lemma step_view_has_selection (w : World) (e : Event) :
  view_has_selection w → view_has_selection (step StringToNumber w e).
Proof.
  intros Hw. destruct e as [id| |k o|r| |id]; unfold step.
  - by apply view_has_selection_setSelectedId.
  - by apply view_has_selection_setSelectedId.
  - by apply view_has_selection_settle.
  - destruct (details w) as [d|] eqn:Hd; [|done]. case_match; [|done].
    destruct Hw as [Hview Hreq]. split; [|done]. simpl.
    intros ? [= <-]. simpl. by destruct (Hview d Hd).
  - repeat case_match; try done.
    by apply view_has_selection_setSelectedId.
  - case_decide; [|done]. done.
Qed.

End Selected.

(** X13. Whenever the detail view is mounted an identifier is selected
    (the text of [selectedId] is not empty), and the view and every request
    on its way belong to a view instance that exists or existed: both stay
    true through every sequence of events. *)
Theorem mounted_view_has_selection (StringToNumber : string → number)
    (w : World) (es : list Event) :
  view_has_selection w →
  view_has_selection (run StringToNumber w es).
Proof.
  unfold run. revert w.
  induction es as [|e es IH]; intros w Hw; simpl; [done|].
  apply IH. by apply step_view_has_selection.
Qed.

Lemma mounted_view_has_selection_witness :
  view_has_selection started
  ∧ view_has_selection
      (run no_number started
         [ClickMovie "tt0133093"; ClickMovie "tt0234215";
          Settle 1 (Body 200 details_B)]).
Proof.
  assert (view_has_selection started) as Hw
    by (split; [intros d [=]|constructor]).
  split; [exact Hw|].
  apply (mounted_view_has_selection no_number started _ Hw).
Defined.

(** X14. Closing the view drops what its requests bring: after the view
    is closed and a movie is selected again (the same or another), the end
    of any request that was on its way before, whatever it brings, leaves
    the new view as it is: loading, with no record yet. *)
Theorem closed_view_ignores_responses (StringToNumber : string → number)
    (w : World) (B : string) (k : nat) (o : FetchOutcome) :
  consistent w → B ≠ ""%string → (k < length (inflight w))%nat →
  let w' := run StringToNumber w [CloseMovie; ClickMovie B] in
  details (settle k o w') = details w'
  ∧ Details.render <$> details (settle k o w') = Some Details.Loader.
Proof.
  intros [_ Hreq] HB Hk w'.
  assert (w' = mkWorld (watched w) B
            (Some (Details.setIsLoading true (Details.initial (mounts w))))
            (localStorage w) (inflight w ++ [(mounts w, B)])
            (S (mounts w)) (unhandled w)) as ->.
  { subst w'. unfold run. cbn [foldl].
    replace (step StringToNumber w CloseMovie)
      with (mkWorld (watched w) ""%string None (localStorage w)
                    (inflight w) (mounts w) (unhandled w))
      by (unfold step, handleCloseMovie, setSelectedId;
          by rewrite decide_True).
    by rewrite click_mounts. }
  apply lookup_lt_is_Some_2 in Hk as [[i id] Hlook].
  assert (i < mounts w)%nat as Hi.
  { rewrite Forall_lookup in Hreq. apply (Hreq k (i, id) Hlook). }
  unfold settle. simpl. rewrite lookup_app_l by (by eapply lookup_lt_Some).
  rewrite Hlook. destruct (Details.getMovieDetails_resume o); simpl;
    [done|].
  rewrite decide_False by lia. done.
Qed.

Lemma closed_view_ignores_responses_witness :
  Details.render <$> details
    (run no_number started
       [ClickMovie "tt0133093"; CloseMovie; ClickMovie "tt0234215";
        Settle 0 (Body 200 details_A)])
  = Some Details.Loader.
Proof.
  assert (consistent (run no_number started [ClickMovie "tt0133093"]))
    as Hw.
  { split; [split; [discriminate | simpl; lia]|].
    repeat constructor. }
  destruct (closed_view_ignores_responses no_number
              (run no_number started [ClickMovie "tt0133093"])
              "tt0234215" 0 (Body 200 details_A) Hw
              ltac:(discriminate) ltac:(simpl; lia)) as [_ Hshown].
  exact Hshown.
Defined.

(** ** The entries that the detail view makes *)

Lemma gt_zero_truthy (r : number) : gt r (Fin 0) = true → truthy r = true.
Proof.
  destruct r as [|[]|q]; simpl; try done.
  intros Hq%bool_decide_eq_true. apply negb_true_iff, bool_decide_eq_false.
  intros ->. by apply Qclt_not_eq in Hq.
Qed.

Lemma counted_setUserRating (r : number) (d : Details.state) :
  counted d → counted (Details.setUserRating r d).
Proof.
  intros (q & Hq & Hq0 & Hq1). unfold counted, Details.setUserRating. simpl.
  destruct (decide (r = Details.userRating d)) as [->|Hne]; [by exists q|].
  destruct (truthy r) eqn:Hr; [|by exists q].
  rewrite Hq. simpl. exists (q + 1).
  assert (1 ≤ q + 1) as Hle.
  { rewrite <- (Qcplus_0_l 1) at 1. by apply Qcplus_le_mono_r. }
  repeat split; [|done]. apply (Qcle_trans _ 1); [discriminate|done].
Qed.

Section Entries.

Context (StringToNumber : string → number).

Lemma well_formed_setSelectedId (id : string) (w : World) :
  well_formed w → well_formed (setSelectedId id w).
Proof.
  unfold well_formed, setSelectedId, request. intros [Hview Hall].
  destruct (decide (id = ""%string)) as [->|Hid]; simpl; [done|].
  destruct (details w) as [d|] eqn:Hdet; simpl.
  - destruct Hview as [Hsel Hd]. case_decide; simpl; [by rewrite Hdet|done].
  - split; [|done]. split; [done|]. exists 0. by repeat split.
Qed.

Lemma well_formed_settle (k : nat) (o : FetchOutcome) (w : World) :
  well_formed w → well_formed (settle k o w).
Proof.
  unfold well_formed, settle. intros [Hview Hall].
  destruct (inflight w !! k) as [[i id]|]; [|done].
  destruct (Details.getMovieDetails_resume o) as [r|update] eqn:Ho; simpl;
    [done|].
  split; [|done]. destruct (details w) as [d|]; [|done].
  case_decide; [|done]. destruct o; simpl in Ho; simplify_eq. exact Hview.
Qed.

Lemma newWatchedMovie_ok (selectedId : string) (d : Details.state) :
  selectedId ≠ ""%string → counted d →
  gt (Details.userRating d) (Fin 0) = true →
  entry_ok (newWatchedMovie StringToNumber selectedId d).
Proof.
  intros Hsel (q & Hq & _ & Hq1) Hgt. unfold entry_ok. simpl.
  split; [by eexists|]. split; [by eexists|].
  exists q. split; [by rewrite Hq|]. by apply Hq1, gt_zero_truthy.
Qed.

Lemma step_well_formed (w : World) (e : Event) :
  well_formed w → well_formed (step StringToNumber w e).
Proof.
  intros Hw. destruct e as [id| |k o|r| |id]; unfold step.
  - by apply well_formed_setSelectedId.
  - by apply well_formed_setSelectedId.
  - by apply well_formed_settle.
  - destruct (details w) as [d|] eqn:Hd; [|done]. case_match; [|done].
    unfold well_formed in *. simpl. rewrite Hd in Hw.
    destruct Hw as [[Hsel Hc] Hall]. repeat split; try done.
    by apply counted_setUserRating.
  - destruct (details w) as [d|] eqn:Hd; [|done].
    destruct (Details.add_shown _ _ d) eqn:Hshown; [|done].
    apply well_formed_setSelectedId.
    unfold well_formed in *. simpl. rewrite Hd in *.
    destruct Hw as [[Hsel Hc] Hall]. split; [done|].
    unfold handleAddWatched. apply Forall_app. split; [done|].
    apply Forall_singleton, newWatchedMovie_ok; [done|done|].
    unfold Details.add_shown in Hshown.
    by apply andb_true_iff in Hshown as [_ Hgt].
  - case_decide; [|done]. unfold well_formed in *. simpl.
    destruct Hw as [Hview Hall]. split; [done|].
    apply Forall_forall. intros x [Hx _]%handleDeleteWatched_elem.
    rewrite Forall_forall in Hall. by apply Hall.
Qed.

End Entries.

(** X15. Every entry that gets into the watched list through the detail
    view has a text that is not empty for identifier, a user rating above
    0 and a count of rating decisions of at least 1; a list of such
    entries stays one through every sequence of events. *)
Theorem entries_stay_rated (StringToNumber : string → number)
    (w : World) (es : list Event) :
  well_formed w →
  Forall entry_ok (watched (run StringToNumber w es)).
Proof.
  intros Hw.
  enough (well_formed (run StringToNumber w es)) as [_ Hall] by done.
  unfold run. revert w Hw.
  induction es as [|e es IH]; intros w Hw; simpl; [done|].
  apply IH. by apply step_well_formed.
Qed.

Lemma entries_stay_rated_witness :
  well_formed started
  ∧ Forall entry_ok (watched (run no_number started rate_twice)).
Proof.
  assert (well_formed started) as Hw by (split; [exact I|constructor]).
  split; [exact Hw|].
  apply (entries_stay_rated no_number started rate_twice Hw).
Defined.

(** X16. A click on "Add to list", when the button is on the page, puts
    one entry for the selected identifier at the end of the watched list,
    writes the list to the store, closes the view, and leaves the requests
    on their way as they are. *)
Theorem add_appends_and_closes (StringToNumber : string → number)
    (w : World) (d : Details.state) :
  details w = Some d →
  Details.add_shown (selectedId w) (watched w) d = true →
  let w' := step StringToNumber w ClickAdd in
  watched w' = watched w ++ [newWatchedMovie StringToNumber (selectedId w) d]
  ∧ WatchedMovie.imdbID (newWatchedMovie StringToNumber (selectedId w) d)
    = val (selectedId w)
  ∧ in_sync w'
  ∧ selectedId w' = ""%string ∧ details w' = None
  ∧ inflight w' = inflight w.
Proof.
  intros Hd Hshown w'. subst w'. unfold step. rewrite Hd, Hshown.
  unfold handleAdd, handleCloseMovie.
  split; [by rewrite watched_setSelectedId|]. split; [done|].
  split; [apply in_sync_setSelectedId, in_sync_setWatched|].
  unfold setSelectedId. by rewrite decide_True.
Qed.

Lemma add_appends_and_closes_witness :
  watched (run no_number started
             [ClickMovie "tt0133093"; Settle 0 (Body 200 details_A);
              SetRating (of_nat 8); ClickAdd])
  = [newWatchedMovie no_number "tt0133093"
       (Details.setUserRating (of_nat 8)
          (Details.setIsLoading false
             (Details.setMovie details_A (Details.initial 0))))].
Proof.
  pose (w := run no_number started
               [ClickMovie "tt0133093"; Settle 0 (Body 200 details_A);
                SetRating (of_nat 8)]).
  destruct (add_appends_and_closes no_number w
              (Details.setUserRating (of_nat 8)
                 (Details.setIsLoading false
                    (Details.setMovie details_A (Details.initial 0))))
              eq_refl eq_refl) as [Hadd _].
  exact Hadd.
Defined.

(** X17. Choosing the same rating again is not counted as another
    decision: a second [SetRating] with the same value changes nothing. A
    rating that differs from the one before and is not 0 adds one to the
    counter. *)
Theorem same_rating_counts_once (StringToNumber : string → number)
    (w : World) (r : number) :
  step StringToNumber (step StringToNumber w (SetRating r)) (SetRating r)
  = step StringToNumber w (SetRating r)
  ∧ ∀ d, r ≠ Details.userRating d → truthy r = true →
      Details.countRef (Details.setUserRating r d)
      = add (Details.countRef d) (Fin 1).
Proof.
  split.
  - unfold step. destruct (details w) as [d|] eqn:Hd; [|by rewrite Hd].
    destruct (Details.rating_shown _ _ d) eqn:Hshown; [|by rewrite Hd, Hshown].
    simpl. unfold Details.rating_shown in *. simpl. rewrite Hshown.
    unfold Details.setUserRating. simpl. by rewrite decide_True.
  - intros d Hne Hr. unfold Details.setUserRating. simpl.
    by rewrite decide_False, Hr.
Qed.

(** ** The document title *)

Lemma title_step_ok (start : string) (before after : option Details.state)
    (p : Page) :
  page_ok start before p → page_ok start after (title_step before after p).
Proof.
  unfold page_ok, titled, title_step, title_effect, title_effect_cleanup,
    title_of.
  destruct p as [doc c].
  destruct before as [d|], after as [d'|]; simpl; [|..|done].
  - case_decide as Ht; [by rewrite Ht|]. clear Ht.
    destruct (MovieDetails.Title (Details.movie d)) as [| |s],
             (MovieDetails.Title (Details.movie d')) as [| |s'];
      repeat (case_decide; simpl); intros Hp; simplify_eq/=;
      try (destruct Hp as [-> Hp]); simpl; auto.
  - destruct (MovieDetails.Title (Details.movie d)) as [| |s];
      repeat (case_decide; simpl); intros Hp; simplify_eq/=;
      try (destruct Hp as [-> Hp]); simpl; auto.
  - destruct (MovieDetails.Title (Details.movie d')) as [| |s'];
      repeat (case_decide; simpl); intros [Hc Hp]; simplify_eq/=; auto.
Qed.

(** X18. The document title follows the detail view. From a page on which
    no cleanup is pending (as when [App] starts, whatever title the
    document has then), after every sequence of events: while the mounted
    view holds a record whose title is a text that is not empty, the
    document title is "Movie | " and that title; at any other time no
    cleanup is pending and the document title is the one it started with
    or "usePopcorn". *)
Theorem title_follows_view (StringToNumber : string → number)
    (start : string) (w : World) (p : Page) (es : list Event) :
  page_ok start (details w) p →
  (run_page StringToNumber (w, p) es).1 = run StringToNumber w es
  ∧ page_ok start (details (run StringToNumber w es))
      (run_page StringToNumber (w, p) es).2.
Proof.
  unfold run_page, run. revert w p.
  induction es as [|e es IH]; intros w p Hp; simpl; [done|].
  unfold step_page at 2 4. simpl. apply IH. by apply title_step_ok.
Qed.

Lemma title_follows_view_witness :
  page_ok "React App" (details started)
    {| documentTitle := "React App"; title_cleanup := false |}
  ∧ page_ok "React App"
      (details (run no_number started
                  [ClickMovie "tt0133093"; Settle 0 (Body 200 details_A)]))
      (run_page no_number
         (started, {| documentTitle := "React App"; title_cleanup := false |})
         [ClickMovie "tt0133093"; Settle 0 (Body 200 details_A)]).2.
Proof.
  assert (page_ok "React App" (details started)
            {| documentTitle := "React App"; title_cleanup := false |})
    as Hp by (split; [reflexivity | left; reflexivity]).
  split; [exact Hp|].
  destruct (title_follows_view no_number "React App" started _
              [ClickMovie "tt0133093"; Settle 0 (Body 200 details_A)] Hp)
    as [_ Hok].
  exact Hok.
Defined.

(** From the title "React App": a movie is shown and the view closed, and
    the title is "usePopcorn"; the view is closed before its record has
    come, and the title is still "React App". *)
Example title_after_close :
  documentTitle
    (run_page no_number
       (started, {| documentTitle := "React App"; title_cleanup := false |})
       [ClickMovie "tt0133093"; Settle 0 (Body 200 details_A)]).2
  = "Movie | The Matrix"%string
  ∧ documentTitle
      (run_page no_number
         (started, {| documentTitle := "React App"; title_cleanup := false |})
         [ClickMovie "tt0133093"; Settle 0 (Body 200 details_A);
          CloseMovie]).2
    = "usePopcorn"%string
  ∧ documentTitle
      (run_page no_number
         (started, {| documentTitle := "React App"; title_cleanup := false |})
         [ClickMovie "tt0133093"; CloseMovie]).2
    = "React App"%string.
Proof. repeat split. Qed.
